(** * HistoryStack of the node material editor (nodeEditor/src/historyStack.ts)

    Shallow embedding of the undo / redo stack.  The document
    ([NodeMaterial]), the compressed buffers ([Uint8Array]), the JSON value
    type and the codecs (fflate, [JSON.stringify] / [JSON.parse],
    [serialize] / [parseSerializedObject]) are external collaborators and are
    kept abstract; a codec that throws returns [None].  The methods run in a
    small state-and-exception monad: as in JavaScript, the mutations done
    before a [throw] stay in the state. *)

From Stdlib Require Import String Ascii List Bool Arith Lia Permutation.
Import ListNotations.

(** ** JavaScript values and the outcome of a method call *)

(** The value a call evaluates to: [return;] and falling off the end of a
    method both give [undefined]. *)
Inductive js_value :=
| js_undefined
| js_bool (b : bool).

Inductive outcome (A : Type) :=
| Ok (a : A)
| Throw.
Arguments Ok {A} a.
Arguments Throw {A}.

(** Observables the history stack publishes on during a transition. *)
Inductive publication :=
| SelectionChanged   (* stateManager.onSelectionChangedObservable *)
| ResetRequired.     (* globalState.onResetRequiredObservable *)

(** The fields of a [HistoryStack] instance that the methods touch. *)
Record HistoryStack (Uint8Array NodeMaterial : Type) := mkHistoryStack {
  _history : list Uint8Array;
  _redoStack : list Uint8Array;
  _locked : bool;
  _nodeMaterial : NodeMaterial
}.
Arguments mkHistoryStack {Uint8Array NodeMaterial}.
Arguments _history {Uint8Array NodeMaterial}.
Arguments _redoStack {Uint8Array NodeMaterial}.
Arguments _locked {Uint8Array NodeMaterial}.
Arguments _nodeMaterial {Uint8Array NodeMaterial}.

(** [private readonly _maxHistoryLength = 64;] *)
Definition _maxHistoryLength : nat := 64.

(** [a[a.length - 1]]: [undefined] (here [None]) on an empty array. *)
Definition js_last {A} (l : list A) : option A := nth_error l (length l - 1).

(** The last [k] elements of a list. *)
Definition lastn {A} (k : nat) (l : list A) : list A := skipn (length l - k) l.

(** What happens to the editor between two observations of the stack: an
    edit of the material followed by the change notification it fires, a
    change notification alone (node moved, rebuild required, ...), or a
    call of one of the public methods. *)
Inductive event (NodeMaterial : Type) :=
| Edit (m : NodeMaterial)
| Notify
| Undo
| Redo
| Reset.
Arguments Edit {NodeMaterial} m.
Arguments Notify {NodeMaterial}.
Arguments Undo {NodeMaterial}.
Arguments Redo {NodeMaterial}.
Arguments Reset {NodeMaterial}.

(** ** A concrete instance of the collaborators, to run the model

    Buffers, materials and JSON values are all texts; compression and the
    codecs are the identity.  [text_decompress_failing] and
    [text_parse_failing] throw on one given text. *)

Definition text_compress (s : string) : string := s.
Definition text_decompress (b : string) : option string := Some b.
Definition text_decompress_failing (bad b : string) : option string :=
  if String.eqb b bad then None else Some b.
Definition text_serialize (m : string) : string := m.
Definition text_json_parse (s : string) : option string := Some s.
Definition text_parse_failing (bad s : string) : option string :=
  if String.eqb s bad then None else Some s.
Definition text_parseSerializedObject (_ : string) (json : string) : option string :=
  Some json.
(** Each restore and each publication fires one change notification. *)
Definition one_parse_notification (_ _ : string) : nat := 1.
Definition one_publication_notification (_ : publication) : nat := 1.

(** The [n]-th distinct material text. *)
Fixpoint nat_text (n : nat) : string :=
  match n with
  | O => EmptyString
  | S k => String "a"%char (nat_text k)
  end.

Section HistoryStackModel.

Variable Uint8Array : Type.
Variable NodeMaterial : Type.
Variable Json : Type.

(** [fflate.zlibSync(fflate.strToU8(s), { level: 9 })] *)
Variable compress : string -> Uint8Array.
(** [fflate.strFromU8(fflate.decompressSync(b))]; [None] when it throws. *)
Variable decompress : Uint8Array -> option string.
(** [SerializationTools.UpdateLocations(...); JSON.stringify(m.serialize())] *)
Variable serialize : NodeMaterial -> string.
(** [JSON.parse]; [None] when it throws. *)
Variable json_parse : string -> option Json.
(** [m.parseSerializedObject(json)] replacing the material in place;
    [None] when it throws. *)
Variable parseSerializedObject : NodeMaterial -> Json -> option NodeMaterial.
(** Number of change notifications (each dispatched to [_store] by the
    observers registered in the constructor) fired synchronously while
    [parseSerializedObject] rebuilds the material. *)
Variable parse_notifications : NodeMaterial -> Json -> nat.
(** Number of change notifications fired synchronously by the observers of
    a publication. *)
Variable publication_notifications : publication -> nat.

Local Notation state := (HistoryStack Uint8Array NodeMaterial).

(** *** The monad *)

Definition M (A : Type) := state -> state * outcome A.

Definition ret {A} (a : A) : M A := fun st => (st, Ok a).

Definition bind {A B} (m : M A) (k : A -> M B) : M B :=
  fun st => match m st with
            | (st', Ok a) => k a st'
            | (st', Throw) => (st', Throw)
            end.

Definition throw {A} : M A := fun st => (st, Throw).

Definition get : M state := fun st => (st, Ok st).

Definition modify (f : state -> state) : M unit := fun st => (f st, Ok tt).

Local Notation "x <- m ;; k" := (bind m (fun x => k))
  (at level 61, m at next level, right associativity).
Local Notation "m ;; k" := (bind m (fun _ : unit => k))
  (at level 61, right associativity).

Definition with_history (h : list Uint8Array) (st : state) : state :=
  mkHistoryStack h (_redoStack st) (_locked st) (_nodeMaterial st).
Definition with_redoStack (r : list Uint8Array) (st : state) : state :=
  mkHistoryStack (_history st) r (_locked st) (_nodeMaterial st).
Definition with_locked (b : bool) (st : state) : state :=
  mkHistoryStack (_history st) (_redoStack st) b (_nodeMaterial st).
Definition with_nodeMaterial (m : NodeMaterial) (st : state) : state :=
  mkHistoryStack (_history st) (_redoStack st) (_locked st) m.

(** *** Private helpers *)

(** [private _decompress(data)] *)
Definition _decompress (data : Uint8Array) : M string :=
  match decompress data with
  | Some s => ret s
  | None => throw
  end.

(** [this._history.push(compressedData);
     if (this._history.length > this._maxHistoryLength) this._history.splice(0, 1);] *)
Definition push_and_evict (compressedData : Uint8Array) : M unit :=
  modify (fun st => with_history (_history st ++ [compressedData]) st) ;;
  st <- get ;;
  if _maxHistoryLength <? length (_history st)
  then modify (with_history (tl (_history st)))
  else ret tt.

(** [private _store()] *)
Definition _store : M unit :=
  st <- get ;;
  if _locked st then ret tt else
  let dataString := serialize (_nodeMaterial st) in
  (* this._history.length > 0 && this._decompress(top) === dataString *)
  match js_last (_history st) with
  | Some top =>
      s <- _decompress top ;;
      if String.eqb s dataString then ret tt
      else push_and_evict (compress dataString)
  | None => push_and_evict (compress dataString)
  end.

(** A change notification fired [n] times in a row: each one reaches
    [_store] through the observers registered in the constructor. *)
Fixpoint notify_change (n : nat) : M unit :=
  match n with
  | O => ret tt
  | S n' => _store ;; notify_change n'
  end.

(** [observable.notifyObservers(...)] on a publication channel. *)
Definition publish (p : publication) : M unit :=
  notify_change (publication_notifications p).

(** [this._nodeMaterial.parseSerializedObject(JSON.parse(text))] *)
Definition restore (text : string) : M unit :=
  match json_parse text with
  | None => throw
  | Some json =>
      st <- get ;;
      match parseSerializedObject (_nodeMaterial st) json with
      | None => throw
      | Some m =>
          modify (with_nodeMaterial m) ;;
          notify_change (parse_notifications (_nodeMaterial st) json)
      end
  end.

(** [this._history.pop()!]; unreachable on an empty array (guarded). *)
Definition pop_history : M Uint8Array :=
  st <- get ;;
  match js_last (_history st) with
  | Some x => modify (with_history (removelast (_history st))) ;; ret x
  | None => throw
  end.

(** [this._redoStack.pop()!]; unreachable on an empty array (guarded). *)
Definition pop_redoStack : M Uint8Array :=
  st <- get ;;
  match js_last (_redoStack st) with
  | Some x => modify (with_redoStack (removelast (_redoStack st))) ;; ret x
  | None => throw
  end.

(** [this._history[this._history.length - 1]] *)
Definition peek_history : M Uint8Array :=
  st <- get ;;
  match js_last (_history st) with
  | Some x => ret x
  | None => throw
  end.

Definition set_locked (b : bool) : M unit := modify (with_locked b).

(** *** Public methods *)

(** [public reset()] *)
Definition reset : M unit :=
  modify (with_history []) ;;
  modify (with_redoStack []) ;;
  _store.

(** [public undo()] *)
Definition undo : M js_value :=
  st <- get ;;
  if length (_history st) <? 2 then ret js_undefined else
  set_locked true ;;
  current <- pop_history ;;
  previous <- peek_history ;;
  modify (fun st => with_redoStack (_redoStack st ++ [current]) st) ;;
  publish SelectionChanged ;;
  previousString <- _decompress previous ;;
  restore previousString ;;
  publish ResetRequired ;;
  set_locked false ;;
  ret js_undefined.

(** [public redo()] *)
Definition redo : M js_value :=
  st <- get ;;
  if length (_redoStack st) <? 1 then ret js_undefined else
  set_locked true ;;
  current <- pop_redoStack ;;
  modify (fun st => with_history (_history st ++ [current]) st) ;;
  publish SelectionChanged ;;
  currentString <- _decompress current ;;
  restore currentString ;;
  publish ResetRequired ;;
  set_locked false ;;
  ret js_undefined.

(** The state right after [new HistoryStack(globalState)]: the constructor
    only registers observers, it stores nothing. *)
Definition initial (m : NodeMaterial) : state := mkHistoryStack [] [] false m.


(** *** Runs of the editor *)

Definition exec (e : event NodeMaterial) : M unit :=
  match e with
  | Edit m => modify (with_nodeMaterial m) ;; _store
  | Notify => _store
  | Undo => _ <- undo ;; ret tt
  | Redo => _ <- redo ;; ret tt
  | Reset => reset
  end.

(** Events are dispatched one after the other; an exception thrown while
    handling one reaches the dispatcher, and the state it left stays. *)
Fixpoint run (evs : list (event NodeMaterial)) (st : state) : state :=
  match evs with
  | [] => st
  | e :: evs' => run evs' (fst (exec e st))
  end.

Definition reachable (st : state) : Prop :=
  exists m evs, run evs (initial m) = st.

(** A buffer that decompresses to the serialization of some material. *)
Definition snapshot_ok (b : Uint8Array) : Prop :=
  exists m, decompress b = Some (serialize m).

(** Invariant of the states reached when the codecs behave: guard clear,
    every stored buffer a valid snapshot, and (I1) the top of the history
    is the current material. *)
Definition history_inv (st : state) : Prop :=
  _locked st = false /\
  Forall snapshot_ok (_history st) /\
  Forall snapshot_ok (_redoStack st) /\
  match js_last (_history st) with
  | None => True
  | Some top => decompress top = Some (serialize (_nodeMaterial st))
  end.

(** [public dispose()]: the observers registered in the constructor are
    removed (the notification channels are not part of the state), then
    [this._history = []; this._redoStack = [];]. *)
Definition dispose : M unit :=
  modify (with_history []) ;;
  modify (with_redoStack []).

(** Consecutive materials of the list serialize to different texts. *)
Fixpoint adjacent_distinct (ms : list NodeMaterial) : bool :=
  match ms with
  | m1 :: ((m2 :: _) as rest) =>
      negb (String.eqb (serialize m1) (serialize m2)) && adjacent_distinct rest
  | _ => true
  end.

(** *** Evaluation lemmas *)

Lemma js_last_snoc {A} (l : list A) (x : A) : js_last (l ++ [x]) = Some x.
Proof.
  unfold js_last. rewrite length_app. simpl.
  replace (length l + 1 - 1) with (length l) by lia.
  rewrite nth_error_app2 by lia. rewrite Nat.sub_diag. reflexivity.
Qed.

Lemma js_last_nil {A} : js_last (@nil A) = None.
Proof. reflexivity. Qed.

Lemma store_locked st : _locked st = true -> _store st = (st, Ok tt).
Proof. intros H. unfold _store, bind, get. rewrite H. reflexivity. Qed.

Lemma notify_change_locked n st :
  _locked st = true -> notify_change n st = (st, Ok tt).
Proof.
  intros H. induction n as [|n IH]; [reflexivity|].
  simpl. unfold bind. rewrite (store_locked st H). exact IH.
Qed.

Lemma publish_locked p st : _locked st = true -> publish p st = (st, Ok tt).
Proof. apply notify_change_locked. Qed.

Lemma push_and_evict_run b st :
  push_and_evict b st =
  (with_history (let l := _history st ++ [b] in
                 if _maxHistoryLength <? length l then tl l else l) st, Ok tt).
Proof.
  unfold push_and_evict, bind, modify, get, with_history. simpl.
  destruct (_maxHistoryLength <? length (_history st ++ [b])); reflexivity.
Qed.

Lemma store_run st :
  _locked st = false ->
  _store st =
  match js_last (_history st) with
  | Some top =>
      match decompress top with
      | None => (st, Throw)
      | Some s => if String.eqb s (serialize (_nodeMaterial st)) then (st, Ok tt)
                  else push_and_evict (compress (serialize (_nodeMaterial st))) st
      end
  | None => push_and_evict (compress (serialize (_nodeMaterial st))) st
  end.
Proof.
  intros H. unfold _store, bind, get. rewrite H.
  destruct (js_last (_history st)); [|reflexivity].
  unfold _decompress. destruct (decompress u) as [s|]; [|reflexivity].
  unfold ret. simpl. destruct (String.eqb s _); reflexivity.
Qed.

(** The run of [undo] once the guard [length < 2] is passed: the current
    snapshot has moved to the redo stack before anything can throw. *)
Lemma undo_run st h p c :
  _history st = h ++ [p; c] ->
  undo st =
  let moved := mkHistoryStack (h ++ [p]) (_redoStack st ++ [c]) true (_nodeMaterial st) in
  match decompress p with
  | None => (moved, Throw)
  | Some text =>
      match json_parse text with
      | None => (moved, Throw)
      | Some json =>
          match parseSerializedObject (_nodeMaterial st) json with
          | None => (moved, Throw)
          | Some m => (mkHistoryStack (h ++ [p]) (_redoStack st ++ [c]) false m,
                       Ok js_undefined)
          end
      end
  end.
Proof.
  intros Hh. destruct st as [hist r l m]. simpl in Hh |- *. subst hist.
  unfold undo, bind, get, set_locked, modify, pop_history, peek_history, ret. simpl.
  rewrite length_app. simpl.
  replace (length h + 2 <? 2) with false by (symmetry; apply Nat.ltb_ge; lia).
  unfold bind, get, with_locked, with_history, with_redoStack. simpl.
  replace (h ++ [p; c]) with ((h ++ [p]) ++ [c]) by (rewrite <- app_assoc; reflexivity).
  rewrite js_last_snoc. simpl. rewrite removelast_last. rewrite js_last_snoc.
  rewrite publish_locked by reflexivity.
  unfold _decompress. destruct (decompress p) as [text|]; [|reflexivity].
  unfold ret, restore. destruct (json_parse text) as [json|]; [|reflexivity].
  unfold bind, get. simpl. destruct (parseSerializedObject m json) as [m'|]; [|reflexivity].
  unfold modify. simpl. rewrite notify_change_locked by reflexivity.
  rewrite publish_locked by reflexivity. reflexivity.
Qed.

(** The run of [redo] once the guard [length < 1] is passed. *)
Lemma redo_run st f c :
  _redoStack st = f ++ [c] ->
  redo st =
  let moved := mkHistoryStack (_history st ++ [c]) f true (_nodeMaterial st) in
  match decompress c with
  | None => (moved, Throw)
  | Some text =>
      match json_parse text with
      | None => (moved, Throw)
      | Some json =>
          match parseSerializedObject (_nodeMaterial st) json with
          | None => (moved, Throw)
          | Some m => (mkHistoryStack (_history st ++ [c]) f false m, Ok js_undefined)
          end
      end
  end.
Proof.
  intros Hr. destruct st as [hist r l m]. simpl in Hr |- *. subst r.
  unfold redo, bind, get, set_locked, modify, pop_redoStack, ret. simpl.
  rewrite length_app. simpl.
  replace (length f + 1 <? 1) with false by (symmetry; apply Nat.ltb_ge; lia).
  unfold bind, get, with_locked, with_history, with_redoStack. simpl.
  rewrite js_last_snoc. simpl. rewrite removelast_last.
  rewrite publish_locked by reflexivity.
  unfold _decompress. destruct (decompress c) as [text|]; [|reflexivity].
  unfold ret, restore. destruct (json_parse text) as [json|]; [|reflexivity].
  unfold bind, get. simpl. destruct (parseSerializedObject m json) as [m'|]; [|reflexivity].
  unfold modify. simpl. rewrite notify_change_locked by reflexivity.
  rewrite publish_locked by reflexivity. reflexivity.
Qed.


Lemma undo_short st :
  length (_history st) < 2 -> undo st = (st, Ok js_undefined).
Proof.
  intros H. apply Nat.ltb_lt in H. unfold undo, bind, get. rewrite H. reflexivity.
Qed.

Lemma redo_empty st :
  _redoStack st = [] -> redo st = (st, Ok js_undefined).
Proof. intros H. unfold redo, bind, get. rewrite H. reflexivity. Qed.

Lemma split_last2 {A} (l : list A) :
  2 <= length l -> exists h p c, l = h ++ [p; c].
Proof.
  intros H. destruct (rev l) as [|c [|p h]] eqn:E.
  - apply (f_equal (@length A)) in E. rewrite length_rev in E. simpl in E. lia.
  - apply (f_equal (@length A)) in E. rewrite length_rev in E. simpl in E. lia.
  - exists (rev h), p, c. rewrite <- (rev_involutive l), E. simpl.
    rewrite <- app_assoc. reflexivity.
Qed.

Lemma js_last_In {A} (l : list A) x : js_last l = Some x -> In x l.
Proof. apply nth_error_In. Qed.

Lemma evict_last (l : list Uint8Array) b :
  js_last (if _maxHistoryLength <? length (l ++ [b]) then tl (l ++ [b]) else l ++ [b])
  = Some b.
Proof.
  destruct (_maxHistoryLength <? length (l ++ [b])) eqn:E; [|apply js_last_snoc].
  destruct l as [|x l]; [cbv in E; discriminate E|]. apply js_last_snoc.
Qed.

Lemma Forall_tl {A} (P : A -> Prop) l : Forall P l -> Forall P (tl l).
Proof. destruct l; simpl; [auto|]. inversion 1; auto. Qed.

Section WellBehavedCodecs.

(** The compressor is inverse to the decompressor. *)
Hypothesis compress_roundtrip : forall s, decompress (compress s) = Some s.
(** Restoring the serialization of a material succeeds and gives a material
    with the same serialization. *)
Hypothesis restore_roundtrip : forall m0 m, exists json m',
  json_parse (serialize m) = Some json /\
  parseSerializedObject m0 json = Some m' /\
  serialize m' = serialize m.

Lemma store_inv st :
  _locked st = false ->
  Forall snapshot_ok (_history st) ->
  Forall snapshot_ok (_redoStack st) ->
  history_inv (fst (_store st)).
Proof.
  intros Hl Hh Hr. rewrite (store_run st Hl).
  assert (Hpush : history_inv
            (fst (push_and_evict (compress (serialize (_nodeMaterial st))) st))).
  { rewrite push_and_evict_run. cbv zeta. unfold history_inv, with_history; simpl.
    split; [exact Hl|]. split; [|split; [exact Hr|]].
    - assert (Hb : Forall snapshot_ok (_history st ++ [compress (serialize (_nodeMaterial st))])).
      { apply Forall_app. split; [exact Hh|]. constructor; [|constructor].
        exists (_nodeMaterial st). apply compress_roundtrip. }
      destruct (_ <? _); [apply Forall_tl|]; exact Hb.
    - rewrite evict_last. apply compress_roundtrip. }
  destruct (js_last (_history st)) as [top|] eqn:Et; [|exact Hpush].
  assert (Ht : snapshot_ok top)
    by (eapply Forall_forall; [exact Hh|]; apply js_last_In; exact Et).
  destruct Ht as [m0 Hd]. rewrite Hd.
  destruct (String.eqb (serialize m0) (serialize (_nodeMaterial st))) eqn:E;
    [|exact Hpush].
  apply String.eqb_eq in E. simpl. unfold history_inv. rewrite Et, Hd, E. auto.
Qed.

Lemma exec_inv e st : history_inv st -> history_inv (fst (exec e st)).
Proof.
  intros (Hl & Hh & Hr & Htop). destruct e as [m| | | | ]; simpl.
  - apply store_inv; assumption.
  - apply store_inv; assumption.
  - unfold bind. destruct (Nat.lt_ge_cases (length (_history st)) 2) as [Hs|Hs].
    + rewrite undo_short by exact Hs. simpl. repeat split; assumption.
    + destruct (split_last2 _ Hs) as (h & p & c & E).
      rewrite (undo_run st h p c E).
      rewrite E in Hh. apply Forall_app in Hh. destruct Hh as [Hh Hpc].
      inversion Hpc as [|? ? [mp Hp] Hc]; subst.
      rewrite Hp.
      destruct (restore_roundtrip (_nodeMaterial st) mp) as (json & m' & Hj & Hm & Hs').
      rewrite Hj, Hm. simpl. unfold history_inv; simpl.
      split; [reflexivity|]. split; [|split].
      * apply Forall_app. split; [exact Hh|]. constructor; [exists mp; exact Hp|constructor].
      * apply Forall_app. split; [exact Hr|]. exact Hc.
      * rewrite js_last_snoc, Hp, Hs'. reflexivity.
  - unfold bind. destruct (_redoStack st) as [|x r] eqn:E.
    + rewrite redo_empty by exact E. simpl. unfold history_inv. rewrite E. auto.
    + destruct (exists_last (l := x :: r) ltac:(discriminate)) as (f & c & Efc).
      rewrite Efc in E. rewrite (redo_run st f c E).
      rewrite Efc in Hr. apply Forall_app in Hr. destruct Hr as [Hf Hc].
      inversion Hc as [|? ? [mc Hcd] _]; subst.
      rewrite Hcd.
      destruct (restore_roundtrip (_nodeMaterial st) mc) as (json & m' & Hj & Hm & Hs').
      rewrite Hj, Hm. simpl. unfold history_inv; simpl.
      split; [reflexivity|]. split; [|split].
      * apply Forall_app. split; [exact Hh|]. constructor; [exists mc; exact Hcd|constructor].
      * exact Hf.
      * rewrite js_last_snoc, Hcd, Hs'. reflexivity.
  - unfold reset, bind, modify. simpl. apply store_inv; simpl; auto.
Qed.

Lemma run_inv evs st : history_inv st -> history_inv (run evs st).
Proof.
  revert st. induction evs as [|e evs IH]; intros st H; simpl; [exact H|].
  apply IH, exec_inv, H.
Qed.

Lemma reachable_inv st : reachable st -> history_inv st.
Proof.
  intros (m & evs & <-). apply run_inv.
  unfold history_inv, initial. simpl. auto.
Qed.

(** C2: in every reachable state where [undo] performs a transition (the
    history holds at least two snapshots), [undo] followed at once by [redo]
    gives back a material with the same serialized text, and both stacks as
    they were. *)
Theorem undo_then_redo_roundtrip st :
  reachable st -> 2 <= length (_history st) ->
  snd (undo st) = Ok js_undefined /\
  snd (redo (fst (undo st))) = Ok js_undefined /\
  serialize (_nodeMaterial (fst (redo (fst (undo st))))) = serialize (_nodeMaterial st) /\
  _history (fst (redo (fst (undo st)))) = _history st /\
  _redoStack (fst (redo (fst (undo st)))) = _redoStack st.
Proof.
  intros Hreach Hlen.
  destruct (reachable_inv st Hreach) as (Hl & Hh & Hr & Htop).
  destruct (split_last2 _ Hlen) as (h & p & c & E).
  rewrite E in Hh. apply Forall_app in Hh. destruct Hh as [_ Hpc].
  inversion Hpc as [|? ? [mp Hp] _]; subst.
  rewrite E in Htop.
  replace (h ++ [p; c]) with ((h ++ [p]) ++ [c]) in Htop
    by (rewrite <- app_assoc; reflexivity).
  rewrite js_last_snoc in Htop.
  rewrite (undo_run st h p c E). rewrite Hp.
  destruct (restore_roundtrip (_nodeMaterial st) mp) as (j1 & m1 & Hj1 & Hm1 & _).
  rewrite Hj1, Hm1. simpl.
  rewrite (redo_run (mkHistoryStack (h ++ [p]) (_redoStack st ++ [c]) false m1)
             (_redoStack st) c eq_refl).
  simpl. rewrite Htop.
  destruct (restore_roundtrip m1 (_nodeMaterial st)) as (j2 & m2 & Hj2 & Hm2 & Hs2).
  rewrite Hj2, Hm2. simpl.
  repeat split; try assumption.
  rewrite E, <- app_assoc. reflexivity.
Qed.

End WellBehavedCodecs.

(** C1: when the history holds at least two snapshots (written
    [h ++ [p; c]]), [undo] pops the current snapshot [c], appends it to the
    redo stack, and restores the material from the decompressed new top [p]
    of the history, not from the popped [c]. *)
Theorem undo_restores_previous_snapshot st h p c :
  _history st = h ++ [p; c] ->
  _history (fst (undo st)) = h ++ [p] /\
  _redoStack (fst (undo st)) = _redoStack st ++ [c] /\
  (forall text json m,
     decompress p = Some text -> json_parse text = Some json ->
     parseSerializedObject (_nodeMaterial st) json = Some m ->
     _nodeMaterial (fst (undo st)) = m /\ snd (undo st) = Ok js_undefined).
Proof.
  intros E. rewrite (undo_run st h p c E). cbv zeta.
  destruct (decompress p) as [t|] eqn:Ed;
    [destruct (json_parse t) as [j|] eqn:Ej;
      [destruct (parseSerializedObject (_nodeMaterial st) j) as [m'|] eqn:Em|]|];
    simpl; (split; [reflexivity|split; [reflexivity|]]);
    intros text json m Hd Hj Hm; try congruence.
  assert (t = text) by congruence. subst t.
  assert (j = json) by congruence. subst j.
  split; [congruence|reflexivity].
Qed.

(** C3: a capture in a state whose serialized material equals the
    decompressed top of the history changes nothing. *)
Theorem store_dedup_noop st top :
  js_last (_history st) = Some top ->
  decompress top = Some (serialize (_nodeMaterial st)) ->
  _store st = (st, Ok tt).
Proof.
  intros Et Hd. destruct (_locked st) eqn:Hl; [apply store_locked; exact Hl|].
  rewrite (store_run st Hl), Et, Hd, String.eqb_refl. reflexivity.
Qed.

(** C5 (amended): [undo] with fewer than two snapshots in the history and
    [redo] with an empty redo stack return [undefined] and leave the whole
    state (both stacks, guard, material) unchanged. *)
Theorem undo_redo_noop_at_boundary st :
  (length (_history st) < 2 -> undo st = (st, Ok js_undefined)) /\
  (_redoStack st = [] -> redo st = (st, Ok js_undefined)).
Proof. split; [apply undo_short|apply redo_empty]. Qed.

(** C6: a capture request arriving while the guard is set is ignored, so
    however many change notifications the restore and the publications of a
    transition fire, [undo] leaves exactly the popped history and [redo]
    exactly the history with the redone snapshot appended. *)
Theorem capture_ignored_during_transition :
  (forall st, _locked st = true -> _store st = (st, Ok tt)) /\
  (forall st h p c, _history st = h ++ [p; c] -> _history (fst (undo st)) = h ++ [p]) /\
  (forall st f c, _redoStack st = f ++ [c] ->
     _history (fst (redo st)) = _history st ++ [c]).
Proof.
  split; [exact store_locked|split].
  - intros st h p c E. rewrite (undo_run st h p c E). cbv zeta.
    destruct (decompress p) as [t|]; [|reflexivity].
    destruct (json_parse t) as [j|]; [|reflexivity].
    destruct (parseSerializedObject (_nodeMaterial st) j); reflexivity.
  - intros st f c E. rewrite (redo_run st f c E). cbv zeta.
    destruct (decompress c) as [t|]; [|reflexivity].
    destruct (json_parse t) as [j|]; [|reflexivity].
    destruct (parseSerializedObject (_nodeMaterial st) j); reflexivity.
Qed.

(** C7 (amended): when decompression throws in [undo] or [redo], the
    material is unchanged, but the snapshot transfer done before the
    decompression stays: after [undo] the current snapshot has left the
    history for the redo stack, after [redo] the redone snapshot has left the
    redo stack for the history (and the guard stays set). *)
Theorem decompress_failure_keeps_transfer :
  (forall st h p c, _history st = h ++ [p; c] -> decompress p = None ->
     undo st = (mkHistoryStack (h ++ [p]) (_redoStack st ++ [c]) true (_nodeMaterial st),
                Throw)) /\
  (forall st f c, _redoStack st = f ++ [c] -> decompress c = None ->
     redo st = (mkHistoryStack (_history st ++ [c]) f true (_nodeMaterial st), Throw)).
Proof.
  split.
  - intros st h p c E Hd. rewrite (undo_run st h p c E). cbv zeta. rewrite Hd. reflexivity.
  - intros st f c E Hd. rewrite (redo_run st f c E). cbv zeta. rewrite Hd. reflexivity.
Qed.

(** C8 (amended): a capture never changes the redo stack; [undo] appends to
    it exactly the snapshot it pops from the history (and leaves it as it is
    when there is nothing to undo), [redo] removes exactly its last entry
    (and leaves an empty redo stack empty), and [reset] empties it. *)
Theorem redo_stack_frame :
  (forall st, _redoStack (fst (_store st)) = _redoStack st) /\
  (forall st h p c, _history st = h ++ [p; c] ->
     _redoStack (fst (undo st)) = _redoStack st ++ [c]) /\
  (forall st, List.length (_history st) < 2 ->
     _redoStack (fst (undo st)) = _redoStack st) /\
  (forall st f c, _redoStack st = f ++ [c] -> _redoStack (fst (redo st)) = f) /\
  (forall st, _redoStack st = [] -> _redoStack (fst (redo st)) = []) /\
  (forall st, _redoStack (fst (reset st)) = []).
Proof.
  assert (Hstore : forall st, _redoStack (fst (_store st)) = _redoStack st).
  { intros st. destruct (_locked st) eqn:Hl; [rewrite store_locked by exact Hl; reflexivity|].
    rewrite (store_run st Hl).
    destruct (js_last (_history st)) as [top|];
      [destruct (decompress top) as [s|]; [destruct (String.eqb _ _)|]|];
      try reflexivity; rewrite push_and_evict_run; reflexivity. }
  split; [exact Hstore|split; [|split; [|split; [|split]]]].
  - intros st h p c E. rewrite (undo_run st h p c E). cbv zeta.
    destruct (decompress p) as [t|]; [|reflexivity].
    destruct (json_parse t) as [j|]; [|reflexivity].
    destruct (parseSerializedObject (_nodeMaterial st) j); reflexivity.
  - intros st Hs. rewrite undo_short by exact Hs. reflexivity.
  - intros st f c E. rewrite (redo_run st f c E). cbv zeta.
    destruct (decompress c) as [t|]; [|reflexivity].
    destruct (json_parse t) as [j|]; [|reflexivity].
    destruct (parseSerializedObject (_nodeMaterial st) j); reflexivity.
  - intros st E. rewrite redo_empty by exact E. exact E.
  - intros st. unfold reset, bind, modify. simpl. rewrite Hstore. reflexivity.
Qed.

(** C9 (amended): with the guard clear, [reset] empties both stacks and
    captures a baseline: a history of exactly one snapshot, which
    decompresses (for a compressor inverse on that text) to the serialized
    material, and an empty redo stack.  With the guard set, the capture is
    skipped and the history stays empty. *)
Theorem reset_baseline st :
  (_locked st = false ->
   decompress (compress (serialize (_nodeMaterial st))) = Some (serialize (_nodeMaterial st)) ->
   exists b, reset st = (mkHistoryStack [b] [] false (_nodeMaterial st), Ok tt) /\
             decompress b = Some (serialize (_nodeMaterial st))) /\
  (_locked st = true -> reset st = (mkHistoryStack [] [] true (_nodeMaterial st), Ok tt)).
Proof.
  split.
  - intros Hl Hd. exists (compress (serialize (_nodeMaterial st))). split; [|exact Hd].
    unfold reset, bind, modify. simpl.
    rewrite store_run by exact Hl. simpl. rewrite push_and_evict_run. simpl.
    rewrite <- Hl. reflexivity.
  - intros Hl. unfold reset, bind, modify. simpl.
    rewrite store_locked by exact Hl. rewrite <- Hl. reflexivity.
Qed.

(** C10: when decompression or [JSON.parse] throws in [undo] or [redo], the
    exception leaves the guard set, and from that state every capture
    request returns at once without storing anything. *)
Theorem failed_transition_leaves_guard_set :
  (forall st h p c, _history st = h ++ [p; c] ->
     (decompress p = None \/ exists text, decompress p = Some text /\ json_parse text = None) ->
     snd (undo st) = Throw /\ _locked (fst (undo st)) = true /\
     forall n, notify_change n (fst (undo st)) = (fst (undo st), Ok tt)) /\
  (forall st f c, _redoStack st = f ++ [c] ->
     (decompress c = None \/ exists text, decompress c = Some text /\ json_parse text = None) ->
     snd (redo st) = Throw /\ _locked (fst (redo st)) = true /\
     forall n, notify_change n (fst (redo st)) = (fst (redo st), Ok tt)).
Proof.
  split.
  - intros st h p c E Hf.
    assert (Hu : undo st = (mkHistoryStack (h ++ [p]) (_redoStack st ++ [c]) true
                              (_nodeMaterial st), Throw)).
    { rewrite (undo_run st h p c E). cbv zeta.
      destruct Hf as [Hd|(text & Hd & Hj)]; rewrite Hd; [reflexivity|rewrite Hj; reflexivity]. }
    rewrite Hu. simpl. split; [reflexivity|split; [reflexivity|]].
    intros n. apply notify_change_locked. reflexivity.
  - intros st f c E Hf.
    assert (Hr : redo st = (mkHistoryStack (_history st ++ [c]) f true (_nodeMaterial st), Throw)).
    { rewrite (redo_run st f c E). cbv zeta.
      destruct Hf as [Hd|(text & Hd & Hj)]; rewrite Hd; [reflexivity|rewrite Hj; reflexivity]. }
    rewrite Hr. simpl. split; [reflexivity|split; [reflexivity|]].
    intros n. apply notify_change_locked. reflexivity.
Qed.

(** *** Further properties of the stack *)

Lemma tl_skipn {A} j (l : list A) : tl (skipn j l) = skipn (S j) l.
Proof.
  revert l. induction j as [|j IH]; intros [|x l]; simpl; auto.
Qed.

Lemma lastn_snoc {A} k (L : list A) b :
  lastn k (L ++ [b]) =
  (let l := lastn k L ++ [b] in if k <? length l then tl l else l).
Proof.
  unfold lastn. cbv zeta. rewrite length_app. simpl.
  destruct (Nat.le_gt_cases k (length L)) as [Hk|Hk].
  - replace (length L + 1 - k) with (S (length L - k)) by lia.
    rewrite <- tl_skipn, skipn_app.
    replace (length L - k - length L) with 0 by lia. simpl.
    rewrite length_app, length_skipn. simpl.
    replace (k <? length L - (length L - k) + 1) with true
      by (symmetry; apply Nat.ltb_lt; lia).
    reflexivity.
  - replace (length L + 1 - k) with 0 by lia.
    replace (length L - k) with 0 by lia. simpl.
    rewrite length_app. simpl.
    replace (k <? length L + 1) with false by (symmetry; apply Nat.ltb_ge; lia).
    reflexivity.
Qed.

Lemma js_last_cons2 {A} (x y : A) l : js_last (x :: y :: l) = js_last (y :: l).
Proof. unfold js_last. simpl. rewrite Nat.sub_0_r. reflexivity. Qed.

Lemma adjacent_distinct_snoc ms m :
  adjacent_distinct (ms ++ [m]) = true ->
  adjacent_distinct ms = true /\
  (forall mp, js_last ms = Some mp -> serialize mp <> serialize m).
Proof.
  induction ms as [|x ms IH]; intros H.
  - split; [reflexivity|]. intros mp Hm. discriminate Hm.
  - destruct ms as [|y ms].
    + simpl in H. rewrite andb_true_r in H. apply negb_true_iff in H.
      split; [reflexivity|]. intros mp Hm. injection Hm as <-.
      intros E. rewrite E, String.eqb_refl in H. discriminate H.
    + change (adjacent_distinct (x :: y :: ms ++ [m]) = true) in H.
      simpl in H. apply andb_true_iff in H. destruct H as [Hxy H].
      destruct (IH H) as [Hd Hl]. split.
      * change (negb (String.eqb (serialize x) (serialize y))
                && adjacent_distinct (y :: ms) = true).
        rewrite Hxy, Hd. reflexivity.
      * intros mp. rewrite js_last_cons2. apply Hl.
Qed.

Lemma store_bound st :
  length (_history st) <= _maxHistoryLength ->
  length (_history (fst (_store st))) <= _maxHistoryLength.
Proof.
  intros H. destruct (_locked st) eqn:Hl; [rewrite store_locked by exact Hl; exact H|].
  rewrite (store_run st Hl).
  assert (Hp : length (_history (fst (push_and_evict
                 (compress (serialize (_nodeMaterial st))) st))) <= _maxHistoryLength).
  { rewrite push_and_evict_run. cbv zeta. simpl.
    destruct (Nat.ltb_spec _maxHistoryLength
                (length (_history st ++ [compress (serialize (_nodeMaterial st))])))
      as [Hlt|Hge].
    - rewrite length_app in *. simpl in *.
      destruct (_history st ++ _) eqn:E; simpl; [lia|].
      apply (f_equal (@length Uint8Array)) in E. rewrite length_app in E. simpl in E. lia.
    - exact Hge. }
  destruct (js_last (_history st)) as [top|];
    [destruct (decompress top) as [s|]; [destruct (String.eqb _ _)|]|];
    simpl; assumption.
Qed.

Lemma undo_moves st h p c :
  _history st = h ++ [p; c] ->
  _history (fst (undo st)) = h ++ [p] /\
  _redoStack (fst (undo st)) = _redoStack st ++ [c].
Proof.
  intros E. rewrite (undo_run st h p c E). cbv zeta.
  destruct (decompress p) as [t|]; [|split; reflexivity].
  destruct (json_parse t) as [j|]; [|split; reflexivity].
  destruct (parseSerializedObject (_nodeMaterial st) j); split; reflexivity.
Qed.

Lemma redo_moves st f c :
  _redoStack st = f ++ [c] ->
  _history (fst (redo st)) = _history st ++ [c] /\ _redoStack (fst (redo st)) = f.
Proof.
  intros E. rewrite (redo_run st f c E). cbv zeta.
  destruct (decompress c) as [t|]; [|split; reflexivity].
  destruct (json_parse t) as [j|]; [|split; reflexivity].
  destruct (parseSerializedObject (_nodeMaterial st) j); split; reflexivity.
Qed.

Lemma exec_bound e st :
  e <> Redo -> length (_history st) <= _maxHistoryLength ->
  length (_history (fst (exec e st))) <= _maxHistoryLength.
Proof.
  intros He H. destruct e as [m| | | | ]; simpl.
  - apply store_bound. exact H.
  - apply store_bound. exact H.
  - unfold bind. destruct (Nat.lt_ge_cases (length (_history st)) 2) as [Hs|Hs].
    + rewrite undo_short by exact Hs. exact H.
    + destruct (split_last2 _ Hs) as (h & p & c & E).
      destruct (undo_moves st h p c E) as [H1 _].
      destruct (undo st) as [st' [a|]]; simpl in H1 |- *; rewrite H1;
        rewrite E in H; rewrite length_app in *; simpl in *; lia.
  - exfalso. apply He. reflexivity.
  - unfold reset, bind, modify. simpl. apply store_bound. simpl. unfold _maxHistoryLength. lia.
Qed.

(** In every reachable state, a non-empty redo stack comes with a non-empty
    history. *)
Lemma exec_redo_needs_history e st :
  (_redoStack st = [] \/ _history st <> []) ->
  (_redoStack (fst (exec e st)) = [] \/ _history (fst (exec e st)) <> []).
Proof.
  assert (Hstore : forall st, (_redoStack st = [] \/ _history st <> []) ->
            _redoStack (fst (_store st)) = [] \/ _history (fst (_store st)) <> []).
  { clear. intros st H. destruct (_locked st) eqn:Hl; [rewrite store_locked by exact Hl; exact H|].
    rewrite (store_run st Hl).
    assert (Hp : _history (fst (push_and_evict (compress (serialize (_nodeMaterial st))) st))
                 <> []).
    { rewrite push_and_evict_run. cbv zeta. simpl. intros E.
      apply (f_equal js_last) in E. rewrite evict_last in E. discriminate E. }
    destruct (js_last (_history st)) as [top|];
      [destruct (decompress top) as [s|]; [destruct (String.eqb _ _)|]|];
      simpl; try (right; exact Hp); exact H. }
  intros H. destruct e as [m| | | | ]; simpl.
  - apply Hstore. exact H.
  - apply Hstore. exact H.
  - unfold bind. destruct (Nat.lt_ge_cases (length (_history st)) 2) as [Hs|Hs].
    + rewrite undo_short by exact Hs. exact H.
    + destruct (split_last2 _ Hs) as (h & p & c & E).
      destruct (undo_moves st h p c E) as [H1 _].
      right. destruct (undo st) as [st' [a|]]; simpl in H1 |- *; rewrite H1;
        intros E'; destruct h; discriminate E'.
  - unfold bind. destruct (_redoStack st) as [|x r] eqn:E.
    + rewrite redo_empty by exact E. simpl. left. exact E.
    + destruct (exists_last (l := x :: r) ltac:(discriminate)) as (f & c & Efc).
      rewrite Efc in E. destruct (redo_moves st f c E) as [H1 _].
      right. destruct (redo st) as [st' [a|]]; simpl in H1 |- *; rewrite H1;
        intros E'; destruct (_history st); discriminate E'.
  - unfold reset, bind, modify. simpl. apply Hstore. left. reflexivity.
Qed.

Lemma reachable_redo_needs_history st :
  reachable st -> _redoStack st = [] \/ _history st <> [].
Proof.
  intros (m & evs & <-).
  assert (H0 : _redoStack (initial m) = [] \/ _history (initial m) <> [])
    by (left; reflexivity).
  revert H0. generalize (initial m). induction evs as [|e evs IH]; intros st H; simpl;
    [exact H|]. apply IH, exec_redo_needs_history, H.
Qed.

(** A capture whose top snapshot fails to decompress throws and leaves the
    whole state as it was. *)
Theorem store_throws_on_corrupt_top st top :
  _locked st = false -> js_last (_history st) = Some top -> decompress top = None ->
  _store st = (st, Throw).
Proof. intros Hl Et Hd. rewrite (store_run st Hl), Et, Hd. reflexivity. Qed.

(** With a full history (64 snapshots), a capture of a new text drops the
    oldest snapshot (index 0) and appends the new one: the length stays 64. *)
Theorem store_evicts_oldest_when_full st top s :
  _locked st = false -> length (_history st) = _maxHistoryLength ->
  js_last (_history st) = Some top -> decompress top = Some s ->
  s <> serialize (_nodeMaterial st) ->
  _history (fst (_store st)) = tl (_history st) ++ [compress (serialize (_nodeMaterial st))] /\
  length (_history (fst (_store st))) = _maxHistoryLength.
Proof.
  intros Hl Hn Et Hd Hs. rewrite (store_run st Hl), Et, Hd.
  apply String.eqb_neq in Hs. rewrite Hs, push_and_evict_run. cbv zeta. simpl.
  rewrite length_app, Hn. simpl.
  destruct (_history st) as [|x h] eqn:E; [discriminate Hn|]. simpl.
  simpl in Hn. rewrite length_app. simpl. split; [reflexivity|lia].
Qed.

(** Any run of edits, notifications, undos and resets (no redo) started on
    a fresh stack keeps the history within [_maxHistoryLength]. *)
Theorem runs_without_redo_respect_bound m evs :
  ~ In Redo evs -> length (_history (run evs (initial m))) <= _maxHistoryLength.
Proof.
  intros Hn.
  assert (H0 : length (_history (initial m)) <= _maxHistoryLength)
    by (simpl; unfold _maxHistoryLength; lia).
  revert Hn H0. generalize (initial m).
  induction evs as [|e evs IH]; intros st Hn H; simpl; [exact H|].
  apply IH; [intros Hi; apply Hn; right; exact Hi|].
  apply exec_bound; [|exact H]. intros ->. apply Hn. left. reflexivity.
Qed.

(** An [undo] or [redo] whose decompression and restore succeed leaves the
    guard clear, also when it was set before (e.g. stuck after an earlier
    failed transition), so captures are handled again afterwards. *)
Theorem successful_transition_clears_guard :
  (forall st h p c text json m,
     _history st = h ++ [p; c] -> decompress p = Some text -> json_parse text = Some json ->
     parseSerializedObject (_nodeMaterial st) json = Some m ->
     _locked (fst (undo st)) = false) /\
  (forall st f c text json m,
     _redoStack st = f ++ [c] -> decompress c = Some text -> json_parse text = Some json ->
     parseSerializedObject (_nodeMaterial st) json = Some m ->
     _locked (fst (redo st)) = false).
Proof.
  split.
  - intros st h p c text json m E Hd Hj Hm.
    rewrite (undo_run st h p c E). cbv zeta. rewrite Hd, Hj, Hm. reflexivity.
  - intros st f c text json m E Hd Hj Hm.
    rewrite (redo_run st f c E). cbv zeta. rewrite Hd, Hj, Hm. reflexivity.
Qed.

(** [dispose] empties both stacks, keeps the guard and the material, and
    afterwards [undo] and [redo] change nothing. *)
Theorem dispose_empties_stacks st :
  fst (dispose st) = mkHistoryStack [] [] (_locked st) (_nodeMaterial st) /\
  undo (fst (dispose st)) = (fst (dispose st), Ok js_undefined) /\
  redo (fst (dispose st)) = (fst (dispose st), Ok js_undefined).
Proof.
  split; [reflexivity|split].
  - apply undo_short. simpl. lia.
  - apply redo_empty. reflexivity.
Qed.

(** [undo] and [redo] only move snapshots between the two stacks: the
    snapshots of both stacks together are the same before and after (up to
    order), whether the transition returns, throws or does nothing. *)
Theorem transitions_conserve_snapshots st :
  Permutation (_history (fst (undo st)) ++ _redoStack (fst (undo st)))
              (_history st ++ _redoStack st) /\
  Permutation (_history (fst (redo st)) ++ _redoStack (fst (redo st)))
              (_history st ++ _redoStack st).
Proof.
  split.
  - destruct (Nat.lt_ge_cases (length (_history st)) 2) as [Hs|Hs].
    + rewrite undo_short by exact Hs. reflexivity.
    + destruct (split_last2 _ Hs) as (h & p & c & E).
      destruct (undo_moves st h p c E) as [H1 H2]. rewrite H1, H2, E.
      rewrite <- !app_assoc. apply Permutation_app_head. simpl.
      apply perm_skip. apply Permutation_sym, Permutation_cons_append.
  - destruct (_redoStack st) as [|x r] eqn:E.
    + rewrite redo_empty by exact E. simpl. rewrite E. reflexivity.
    + destruct (exists_last (l := x :: r) ltac:(discriminate)) as (f & c & Efc).
      rewrite Efc in E |- *. destruct (redo_moves st f c E) as [H1 H2]. rewrite H1, H2.
      rewrite <- !app_assoc. apply Permutation_app_head. simpl.
      apply Permutation_cons_append.
Qed.

Section WellBehavedCodecsRuns.

Hypothesis compress_roundtrip : forall s, decompress (compress s) = Some s.
Hypothesis restore_roundtrip : forall m0 m, exists json m',
  json_parse (serialize m) = Some json /\
  parseSerializedObject m0 json = Some m' /\
  serialize m' = serialize m.

Lemma run_app evs1 evs2 st : run (evs1 ++ evs2) st = run evs2 (run evs1 st).
Proof. revert st. induction evs1 as [|e evs IH]; intros st; simpl; auto. Qed.

Lemma store_settles st st' :
  _store st = (st', Ok tt) -> _store st' = (st', Ok tt).
Proof.
  intros H. destruct (_locked st) eqn:Hl.
  - rewrite store_locked in H by exact Hl. injection H as <-. apply store_locked, Hl.
  - rewrite (store_run st Hl) in H.
    assert (Hp : forall st'', push_and_evict (compress (serialize (_nodeMaterial st))) st
                              = (st'', Ok tt) -> _store st'' = (st'', Ok tt)).
    { intros st'' Hpe. rewrite push_and_evict_run in Hpe. injection Hpe as <-.
      cbv zeta. rewrite store_run by exact Hl. simpl.
      rewrite evict_last, compress_roundtrip, String.eqb_refl. reflexivity. }
    destruct (js_last (_history st)) as [top|] eqn:Et; [|exact (Hp _ H)].
    destruct (decompress top) as [s|] eqn:Hd; [|discriminate H].
    destruct (String.eqb s (serialize (_nodeMaterial st))) eqn:Es; [|exact (Hp _ H)].
    injection H as <-. rewrite (store_run st Hl), Et, Hd, Es. reflexivity.
Qed.

(** A burst of [n + 1] change notifications has the effect of a single
    capture: consecutive captures of the same material store one snapshot. *)
Theorem repeated_captures_store_once n st :
  notify_change (S n) st = _store st.
Proof.
  simpl. unfold bind. destruct (_store st) as [st' [[]|]] eqn:H; [|reflexivity].
  apply store_settles in H. clear st.
  induction n as [|n IH]; [reflexivity|]. simpl. unfold bind. rewrite H. exact IH.
Qed.

(** Editing a fresh-history stack through materials whose consecutive
    serializations differ leaves in the history the compressed
    serializations of the last [_maxHistoryLength] of them, oldest first. *)
Theorem edits_keep_last_snapshots st ms :
  _history st = [] -> _locked st = false -> adjacent_distinct ms = true ->
  _history (run (map Edit ms) st) =
  lastn _maxHistoryLength (map (fun m => compress (serialize m)) ms).
Proof.
  intros H0 Hl0 Hd.
  enough (Hgen : _locked (run (map Edit ms) st) = false /\
                 _history (run (map Edit ms) st) =
                 lastn _maxHistoryLength (map (fun m => compress (serialize m)) ms) /\
                 js_last (_history (run (map Edit ms) st)) =
                 option_map (fun m => compress (serialize m)) (js_last ms))
    by apply Hgen.
  induction ms as [|m ms IH] using rev_ind.
  - simpl. rewrite H0. auto.
  - destruct (adjacent_distinct_snoc ms m Hd) as [Hd' Hlast].
    destruct (IH Hd') as (Hl & Hh & Ht).
    rewrite map_app, run_app. simpl.
    set (st1 := run (map Edit ms) st) in *.
    unfold bind, modify.
    set (st2 := with_nodeMaterial m st1).
    assert (Hl2 : _locked st2 = false) by exact Hl.
    rewrite (store_run st2 Hl2).
    assert (Hpush : forall b, b = compress (serialize m) ->
      let st3 := fst (push_and_evict b st2) in
      _locked st3 = false /\
      _history st3 = lastn _maxHistoryLength
                       (map (fun m => compress (serialize m)) (ms ++ [m])) /\
      js_last (_history st3) =
        option_map (fun m => compress (serialize m)) (js_last (ms ++ [m]))).
    { intros b ->. rewrite push_and_evict_run. simpl.
      split; [exact Hl|]. rewrite map_app, js_last_snoc. simpl.
      rewrite lastn_snoc. cbv zeta. rewrite <- Hh. split; [reflexivity|].
      apply evict_last. }
    change (_history st2) with (_history st1). rewrite Ht.
    destruct (js_last ms) as [mp|] eqn:Em; simpl; [|apply Hpush; reflexivity].
    rewrite compress_roundtrip.
    change (_nodeMaterial st2) with m.
    destruct (String.eqb (serialize mp) (serialize m)) eqn:Es;
      [apply String.eqb_eq in Es; exfalso; exact (Hlast mp eq_refl Es)|].
    apply Hpush. reflexivity.
Qed.

(** In every reachable state the guard is clear and the top of the history,
    when there is one, decompresses to the serialization of the current
    material. *)
Theorem reachable_top_is_current st :
  reachable st ->
  _locked st = false /\
  match js_last (_history st) with
  | None => True
  | Some top => decompress top = Some (serialize (_nodeMaterial st))
  end.
Proof.
  intros H. destruct (reachable_inv compress_roundtrip restore_roundtrip st H)
    as (Hl & _ & _ & Ht).
  split; assumption.
Qed.

(** In every reachable state with something to redo, [redo] followed at
    once by [undo] gives back a material with the same serialized text and
    both stacks as they were. *)
Theorem redo_then_undo_roundtrip st :
  reachable st -> _redoStack st <> [] ->
  snd (redo st) = Ok js_undefined /\
  snd (undo (fst (redo st))) = Ok js_undefined /\
  serialize (_nodeMaterial (fst (undo (fst (redo st))))) = serialize (_nodeMaterial st) /\
  _history (fst (undo (fst (redo st)))) = _history st /\
  _redoStack (fst (undo (fst (redo st)))) = _redoStack st.
Proof.
  intros Hreach Hne.
  destruct (reachable_inv compress_roundtrip restore_roundtrip st Hreach)
    as (Hl & Hh & Hr & Htop).
  destruct (reachable_redo_needs_history st Hreach) as [E0|Hhne];
    [exfalso; exact (Hne E0)|].
  destruct (exists_last Hne) as (f & c & Er).
  destruct (exists_last Hhne) as (h & p & Eh).
  rewrite Er in Hr. apply Forall_app in Hr. destruct Hr as [_ Hc].
  inversion Hc as [|? ? [mc Hcd] _]; subst.
  rewrite Eh, js_last_snoc in Htop.
  rewrite (redo_run st f c Er). simpl. rewrite Hcd.
  destruct (restore_roundtrip (_nodeMaterial st) mc) as (j1 & m1 & Hj1 & Hm1 & _).
  rewrite Hj1, Hm1. simpl.
  rewrite Eh.
  rewrite (undo_run (mkHistoryStack ((h ++ [p]) ++ [c]) f false m1) h p c
             ltac:(simpl; rewrite <- app_assoc; reflexivity)).
  simpl. rewrite Htop.
  destruct (restore_roundtrip m1 (_nodeMaterial st)) as (j2 & m2 & Hj2 & Hm2 & Hs2).
  rewrite Hj2, Hm2. simpl. rewrite Er. auto.
Qed.

End WellBehavedCodecsRuns.

End HistoryStackModel.

(** ** Runs of the model on the concrete instance *)

Local Open Scope string_scope.

Local Notation T_undo := (undo string string string text_compress text_decompress
  text_serialize text_json_parse text_parseSerializedObject one_parse_notification
  one_publication_notification).
Local Notation T_redo := (redo string string string text_compress text_decompress
  text_serialize text_json_parse text_parseSerializedObject one_parse_notification
  one_publication_notification).
Local Notation T_store := (_store string string text_compress text_decompress text_serialize).
Local Notation T_reset := (reset string string text_compress text_decompress text_serialize).
Local Notation T_run := (run string string string text_compress text_decompress
  text_serialize text_json_parse text_parseSerializedObject one_parse_notification
  one_publication_notification).
(** Decompression throws on the buffer ["A"]. *)
Local Notation F_undo := (undo string string string text_compress
  (text_decompress_failing "A") text_serialize text_json_parse
  text_parseSerializedObject one_parse_notification one_publication_notification).
Local Notation F_redo := (redo string string string text_compress
  (text_decompress_failing "A") text_serialize text_json_parse
  text_parseSerializedObject one_parse_notification one_publication_notification).
(** [JSON.parse] throws on the text ["bad"]. *)
Local Notation P_run := (run string string string text_compress text_decompress
  text_serialize (text_parse_failing "bad") text_parseSerializedObject
  one_parse_notification one_publication_notification).

Lemma undo_restores_previous_snapshot_witness :
  _history (mkHistoryStack ["A"; "B"] [] false "B") = app [] ["A"; "B"] /\
  _history (fst (T_undo (mkHistoryStack ["A"; "B"] [] false "B"))) = app [] ["A"] /\
  _redoStack (fst (T_undo (mkHistoryStack ["A"; "B"] [] false "B"))) = app [] ["B"] /\
  _nodeMaterial (fst (T_undo (mkHistoryStack ["A"; "B"] [] false "B"))) = "A"%string.
Proof.
  destruct (undo_restores_previous_snapshot string string string text_compress
              text_decompress text_serialize text_json_parse text_parseSerializedObject
              one_parse_notification one_publication_notification
              (mkHistoryStack ["A"; "B"] [] false "B") [] "A" "B" eq_refl)
    as (H1 & H2 & H3).
  split; [reflexivity|]. split; [exact H1|]. split; [exact H2|].
  apply (H3 "A"%string "A"%string "A"%string); reflexivity.
Defined.

Lemma undo_then_redo_roundtrip_witness :
  _history (T_run [Edit "A"; Edit "B"] (initial string string "")) = ["A"; "B"]%string /\
  _history (fst (T_redo (fst (T_undo (T_run [Edit "A"; Edit "B"] (initial string string "")))))) =
  _history (T_run [Edit "A"; Edit "B"] (initial string string "")).
Proof.
  split; [reflexivity|].
  apply (undo_then_redo_roundtrip string string string text_compress text_decompress
           text_serialize text_json_parse text_parseSerializedObject
           one_parse_notification one_publication_notification).
  - intros s. reflexivity.
  - intros m0 m. exists m, m. repeat split.
  - exists ""%string, [Edit "A"; Edit "B"]%string. reflexivity.
  - vm_compute. lia.
Defined.

Lemma store_dedup_noop_witness :
  T_store (mkHistoryStack ["A"] [] false "A") = (mkHistoryStack ["A"] [] false "A", Ok tt).
Proof.
  apply (store_dedup_noop string string text_compress text_decompress text_serialize
           (mkHistoryStack ["A"] [] false "A") "A"); reflexivity.
Defined.

(** [undo] on a fresh stack and [redo] with nothing to redo evaluate to
    [undefined], not to [false]. *)
Lemma undo_redo_boundary_not_false :
  snd (T_undo (initial string string "")) <> Ok (js_bool false) /\
  snd (T_redo (initial string string "")) <> Ok (js_bool false).
Proof. split; intro H; vm_compute in H; discriminate H. Qed.

Lemma undo_redo_noop_at_boundary_witness :
  T_undo (initial string string "A") = (initial string string "A", Ok js_undefined) /\
  T_redo (initial string string "A") = (initial string string "A", Ok js_undefined).
Proof.
  destruct (undo_redo_noop_at_boundary string string string text_compress text_decompress
              text_serialize text_json_parse text_parseSerializedObject
              one_parse_notification one_publication_notification
              (initial string string "A")) as [Hu Hr].
  split; [apply Hu; simpl; lia|apply Hr; reflexivity].
Defined.

Lemma capture_ignored_during_transition_witness :
  T_store (mkHistoryStack ["A"] [] true "B") = (mkHistoryStack ["A"] [] true "B", Ok tt) /\
  _history (fst (T_undo (mkHistoryStack ["A"; "B"] [] false "B"))) = ["A"]%string /\
  _history (fst (T_redo (mkHistoryStack ["A"] ["B"] false "A"))) = ["A"; "B"]%string.
Proof.
  destruct (capture_ignored_during_transition string string string text_compress
              text_decompress text_serialize text_json_parse text_parseSerializedObject
              one_parse_notification one_publication_notification) as (H1 & H2 & H3).
  split; [apply H1; reflexivity|split].
  - apply (H2 _ [] "A"%string "B"%string). reflexivity.
  - apply (H3 (mkHistoryStack ["A"] ["B"] false "A") [] "B"%string). reflexivity.
Defined.

(** Decompression of the new top throws: the material is untouched, but the
    current snapshot has already moved from the history to the redo stack. *)
Lemma decompress_failure_changes_stacks :
  snd (F_undo (mkHistoryStack ["A"; "B"] [] false "B")) = Throw /\
  _nodeMaterial (fst (F_undo (mkHistoryStack ["A"; "B"] [] false "B"))) = "B"%string /\
  _history (fst (F_undo (mkHistoryStack ["A"; "B"] [] false "B"))) <> ["A"; "B"]%string /\
  _redoStack (fst (F_undo (mkHistoryStack ["A"; "B"] [] false "B"))) <> [].
Proof. vm_compute. repeat split; discriminate. Qed.

Lemma decompress_failure_keeps_transfer_witness :
  F_undo (mkHistoryStack ["A"; "B"] [] false "B") =
    (mkHistoryStack ["A"] ["B"] true "B", Throw) /\
  F_redo (mkHistoryStack ["B"] ["A"] false "B") =
    (mkHistoryStack ["B"; "A"] [] true "B", Throw).
Proof.
  destruct (decompress_failure_keeps_transfer string string string text_compress
              (text_decompress_failing "A") text_serialize text_json_parse
              text_parseSerializedObject one_parse_notification
              one_publication_notification) as [Hu Hr].
  split.
  - apply (Hu (mkHistoryStack ["A"; "B"] [] false "B") [] "A"%string "B"%string);
      reflexivity.
  - apply (Hr (mkHistoryStack ["B"] ["A"] false "B") [] "A"%string); reflexivity.
Defined.

(** [reset] empties a non-empty redo stack: [redo] is not the only
    operation that removes entries from it. *)
Lemma reset_drains_redo_stack :
  _redoStack (mkHistoryStack ["A"] ["B"] false "A") = ["B"]%string /\
  _redoStack (fst (T_reset (mkHistoryStack ["A"] ["B"] false "A"))) = [].
Proof. split; reflexivity. Qed.

(** After an undo whose [JSON.parse] throws, the guard is still set and
    [reset] leaves an empty history instead of one baseline snapshot. *)
Lemma reset_after_failed_undo_stores_nothing :
  _history (P_run [Edit "bad"; Edit "x"; Undo; Reset] (initial string string "")) = [].
Proof. vm_compute. reflexivity. Qed.

Lemma redo_stack_frame_witness :
  _redoStack (fst (T_store (mkHistoryStack ["A"] ["B"] false "C"))) = ["B"]%string /\
  _redoStack (fst (T_undo (mkHistoryStack ["A"; "B"] ["C"] false "B"))) = ["C"; "B"]%string /\
  _redoStack (fst (T_undo (mkHistoryStack ["A"] ["C"] false "A"))) = ["C"]%string /\
  _redoStack (fst (T_redo (mkHistoryStack ["A"] ["C"; "B"] false "A"))) = ["C"]%string /\
  _redoStack (fst (T_redo (mkHistoryStack ["A"] [] false "A"))) = [] /\
  _redoStack (fst (T_reset (mkHistoryStack ["A"] ["B"] false "A"))) = [].
Proof.
  destruct (redo_stack_frame string string string text_compress text_decompress
              text_serialize text_json_parse text_parseSerializedObject
              one_parse_notification one_publication_notification)
    as (H1 & H2 & H3 & H4 & H5 & H6).
  split; [apply H1|split; [|split; [|split; [|split]]]].
  - apply (H2 (mkHistoryStack ["A"; "B"] ["C"] false "B") [] "A"%string "B"%string).
    reflexivity.
  - apply H3. simpl. lia.
  - apply (H4 (mkHistoryStack ["A"] ["C"; "B"] false "A") ["C"]%string "B"%string).
    reflexivity.
  - apply H5. reflexivity.
  - apply H6.
Defined.

Lemma reset_baseline_witness :
  (exists b, T_reset (mkHistoryStack ["A"] ["B"] false "C") =
               (mkHistoryStack [b] [] false "C", Ok tt) /\
             text_decompress b = Some "C"%string) /\
  T_reset (mkHistoryStack ["A"] ["B"] true "C") = (mkHistoryStack [] [] true "C", Ok tt).
Proof.
  split.
  - apply (proj1 (reset_baseline string string text_compress text_decompress text_serialize
                    (mkHistoryStack ["A"] ["B"] false "C"))); reflexivity.
  - apply (proj2 (reset_baseline string string text_compress text_decompress text_serialize
                    (mkHistoryStack ["A"] ["B"] true "C"))); reflexivity.
Defined.

Lemma failed_transition_leaves_guard_set_witness :
  _locked (fst (F_undo (mkHistoryStack ["A"; "B"] [] false "B"))) = true /\
  _locked (fst (F_redo (mkHistoryStack ["B"] ["A"] false "B"))) = true.
Proof.
  destruct (failed_transition_leaves_guard_set string string string text_compress
              (text_decompress_failing "A") text_serialize text_json_parse
              text_parseSerializedObject one_parse_notification
              one_publication_notification) as [Hu Hr].
  split.
  - apply (Hu (mkHistoryStack ["A"; "B"] [] false "B") [] "A"%string "B"%string);
      [reflexivity|left; reflexivity].
  - apply (Hr (mkHistoryStack ["B"] ["A"] false "B") [] "A"%string);
      [reflexivity|left; reflexivity].
Defined.

(** Sixty-four distinct edits fill the history; an undo, a new edit (which
    does not clear the redo stack) and a redo then push a 65th snapshot:
    [redo] appends to the history without the eviction [_store] does. *)
Lemma redo_exceeds_max_history :
  length (_history (T_run (app (map (fun n => Edit (nat_text n)) (seq 1 64))
                                [Undo; Edit (nat_text 65); Redo])
                          (initial string string ""))) = 65.
Proof. vm_compute. reflexivity. Qed.

(** ** Witnesses for the further properties *)

Local Notation F_store := (_store string string text_compress
  (text_decompress_failing "A") text_serialize).
Local Notation T_notify := (notify_change string string text_compress text_decompress
  text_serialize).

Lemma store_throws_on_corrupt_top_witness :
  F_store (mkHistoryStack ["A"] [] false "B") = (mkHistoryStack ["A"] [] false "B", Throw).
Proof.
  apply (store_throws_on_corrupt_top string string text_compress
           (text_decompress_failing "A") text_serialize
           (mkHistoryStack ["A"] [] false "B") "A"); reflexivity.
Defined.

Lemma store_evicts_oldest_when_full_witness :
  _history (fst (T_store (mkHistoryStack (map nat_text (seq 1 64)) [] false (nat_text 65)))) =
    app (map nat_text (seq 2 63)) [nat_text 65] /\
  length (_history (fst (T_store (mkHistoryStack (map nat_text (seq 1 64)) [] false
                                    (nat_text 65))))) = 64.
Proof.
  apply (store_evicts_oldest_when_full string string text_compress text_decompress
           text_serialize (mkHistoryStack (map nat_text (seq 1 64)) [] false (nat_text 65))
           (nat_text 64) (nat_text 64)).
  - reflexivity.
  - reflexivity.
  - reflexivity.
  - reflexivity.
  - vm_compute. discriminate.
Defined.

Lemma runs_without_redo_respect_bound_witness :
  length (_history (T_run (app (map (fun n => Edit (nat_text n)) (seq 1 70)) [Undo; Reset])
                          (initial string string ""))) <= 64.
Proof.
  apply (runs_without_redo_respect_bound string string string text_compress text_decompress
           text_serialize text_json_parse text_parseSerializedObject one_parse_notification
           one_publication_notification).
  intros H. vm_compute in H. repeat (destruct H as [H|H]; [discriminate H|]). exact H.
Defined.

Lemma successful_transition_clears_guard_witness :
  _locked (fst (T_undo (mkHistoryStack ["A"; "B"] [] true "B"))) = false /\
  _locked (fst (T_redo (mkHistoryStack ["A"] ["B"] true "A"))) = false.
Proof.
  destruct (successful_transition_clears_guard string string string text_compress
              text_decompress text_serialize text_json_parse text_parseSerializedObject
              one_parse_notification one_publication_notification) as [Hu Hr].
  split.
  - apply (Hu _ [] "A" "B" "A" "A" "A"); reflexivity.
  - apply (Hr _ [] "B" "B" "B" "B"); reflexivity.
Defined.

Lemma repeated_captures_store_once_witness :
  T_notify 3 (initial string string "A") = T_store (initial string string "A").
Proof.
  apply (repeated_captures_store_once string string text_compress text_decompress
           text_serialize).
  intros s. reflexivity.
Defined.

Lemma edits_keep_last_snapshots_witness :
  _history (T_run (map Edit (map nat_text (seq 1 70))) (initial string string "")) =
  lastn _maxHistoryLength (map (fun m => text_compress (text_serialize m))
                               (map nat_text (seq 1 70))).
Proof.
  apply (edits_keep_last_snapshots string string string text_compress text_decompress
           text_serialize text_json_parse text_parseSerializedObject one_parse_notification
           one_publication_notification).
  - intros s. reflexivity.
  - reflexivity.
  - reflexivity.
  - vm_compute. reflexivity.
Defined.

Lemma reachable_top_is_current_witness :
  _locked (T_run [Edit "A"; Edit "B"; Undo] (initial string string "")) = false /\
  match js_last (_history (T_run [Edit "A"; Edit "B"; Undo] (initial string string ""))) with
  | None => True
  | Some top => text_decompress top =
                Some (text_serialize (_nodeMaterial
                        (T_run [Edit "A"; Edit "B"; Undo] (initial string string ""))))
  end.
Proof.
  apply (reachable_top_is_current string string string text_compress text_decompress
           text_serialize text_json_parse text_parseSerializedObject one_parse_notification
           one_publication_notification).
  - intros s. reflexivity.
  - intros m0 m. exists m, m. repeat split.
  - exists "", [Edit "A"; Edit "B"; Undo]. reflexivity.
Defined.

Lemma redo_then_undo_roundtrip_witness :
  _redoStack (T_run [Edit "A"; Edit "B"; Undo] (initial string string "")) = ["B"] /\
  _history (fst (T_undo (fst (T_redo (T_run [Edit "A"; Edit "B"; Undo]
                                             (initial string string "")))))) =
  _history (T_run [Edit "A"; Edit "B"; Undo] (initial string string "")).
Proof.
  split; [reflexivity|].
  apply (redo_then_undo_roundtrip string string string text_compress text_decompress
           text_serialize text_json_parse text_parseSerializedObject one_parse_notification
           one_publication_notification).
  - intros s. reflexivity.
  - intros m0 m. exists m, m. repeat split.
  - exists "", [Edit "A"; Edit "B"; Undo]. reflexivity.
  - vm_compute. discriminate.
Defined.
